(** * A shallow embedding of mgraphics_image_rendering.js

    The jsui script keeps a cached, upscaled [Image] of the drawing made
    by [drawStuff] and composites it back into the visible MGraphics
    context at inverse scale.  This file embeds the script's global
    state, its message handlers and [paint] as functions on an explicit
    state record; the host (Max) is reduced to a step relation that
    delivers messages and paint requests.

    JavaScript numbers are modelled as exact rationals extended with NaN
    and the two infinities: IEEE rounding is abstracted, which none of
    the properties below depends on ([Math.min], [Math.max] and the
    comparisons are exact). *)

From Stdlib Require Import QArith Lqa ZArith Lia List String Ascii Bool.
Import ListNotations.
Open Scope string_scope.
Open Scope list_scope.

(** ** JavaScript numbers *)

Inductive jsnum : Type :=
| JFin (q : Q)
| JNaN
| JPInf
| JNInf.

Definition jzero : jsnum := JFin 0.
Definition jone : jsnum := JFin 1.

Definition is_nan (a : jsnum) : bool :=
  match a with JNaN => true | _ => false end.

(** Strict order on non-NaN numbers (false as soon as one side is NaN). *)
Definition jlt (a b : jsnum) : bool :=
  match a, b with
  | JFin x, JFin y => negb (Qle_bool y x)
  | JNInf, JFin _ | JNInf, JPInf | JFin _, JPInf => true
  | _, _ => false
  end.

(** [Math.min(a, b)] and [Math.max(a, b)]: NaN if either argument is NaN. *)
Definition Math_min (a b : jsnum) : jsnum :=
  if is_nan a || is_nan b then JNaN else if jlt b a then b else a.

Definition Math_max (a b : jsnum) : jsnum :=
  if is_nan a || is_nan b then JNaN else if jlt a b then b else a.

Definition jneg (a : jsnum) : jsnum :=
  match a with
  | JFin x => JFin (- x)
  | JNaN => JNaN
  | JPInf => JNInf
  | JNInf => JPInf
  end.

Definition jadd (a b : jsnum) : jsnum :=
  match a, b with
  | JNaN, _ | _, JNaN => JNaN
  | JPInf, JNInf | JNInf, JPInf => JNaN
  | JPInf, _ | _, JPInf => JPInf
  | JNInf, _ | _, JNInf => JNInf
  | JFin x, JFin y => JFin (x + y)
  end.

Definition jsub (a b : jsnum) : jsnum := jadd a (jneg b).

(** Sign of a finite number: [Some true] positive, [Some false] negative,
    [None] zero. *)
Definition qsign (x : Q) : option bool :=
  match Qcompare x 0 with Gt => Some true | Lt => Some false | Eq => None end.

Definition jinf (pos : bool) : jsnum := if pos then JPInf else JNInf.

Definition jmul (a b : jsnum) : jsnum :=
  match a, b with
  | JNaN, _ | _, JNaN => JNaN
  | JFin x, JFin y => JFin (x * y)
  | JPInf, JPInf | JNInf, JNInf => JPInf
  | JPInf, JNInf | JNInf, JPInf => JNInf
  | JFin x, JPInf | JPInf, JFin x =>
      match qsign x with Some p => jinf p | None => JNaN end
  | JFin x, JNInf | JNInf, JFin x =>
      match qsign x with Some p => jinf (negb p) | None => JNaN end
  end.

Definition jdiv (a b : jsnum) : jsnum :=
  match a, b with
  | JNaN, _ | _, JNaN => JNaN
  | (JPInf | JNInf), (JPInf | JNInf) => JNaN
  | JFin _, (JPInf | JNInf) => jzero
  | JPInf, JFin y => match qsign y with Some p => jinf p | None => JPInf end
  | JNInf, JFin y => match qsign y with Some p => jinf (negb p) | None => JNInf end
  | JFin x, JFin y =>
      match qsign y with
      | None => match qsign x with Some p => jinf p | None => JNaN end
      | Some _ => JFin (x / y)
      end
  end.

(** ** MGraphics contexts

    The transform is the cairo affine matrix
    [x' = xx*x + xy*y + x0], [y' = yx*x + yy*y + y0]. *)

Record affine : Type := Affine {
  xx : jsnum; yx : jsnum; xy : jsnum; yy : jsnum; x0 : jsnum; y0 : jsnum
}.

Definition identity_affine : affine :=
  Affine jone jzero jzero jone jzero jzero.

(** [scale(sx, sy)] prepends a scaling to the current transform. *)
Definition affine_scale (sx sy : jsnum) (m : affine) : affine :=
  Affine (jmul (xx m) sx) (jmul (yx m) sx) (jmul (xy m) sy) (jmul (yy m) sy)
         (x0 m) (y0 m).

(** [translate(tx, ty)] prepends a translation to the current transform. *)
Definition affine_translate (tx ty : jsnum) (m : affine) : affine :=
  Affine (xx m) (yx m) (xy m) (yy m)
         (jadd (jadd (jmul (xx m) tx) (jmul (xy m) ty)) (x0 m))
         (jadd (jadd (jmul (yx m) tx) (jmul (yy m) ty)) (y0 m)).

(** The drawing commands a context receives, logged in order.  Colours
    come from [max.getcolor(name)] and are kept by their theme name. *)
Inductive op : Type :=
| OSetLineWidth (w : jsnum)
| OScale (sx sy : jsnum)
| OTranslate (tx ty : jsnum)
| OSetMatrix (m : affine)
| OIdentityMatrix
| ORectangle (x y w h : jsnum)
| OSetSourceRgba (color : string)
| OFill
| OFillPreserve
| OStroke
| OSelectFontFace (font : string)
| OSetFontSize (n : jsnum)
| OMoveTo (x y : jsnum)
| OShowText (s : string)
| OImageSurfaceDraw (img : image)
(** [new Image(ctx)]: the pixel size and the drawing of the context. *)
with image : Type :=
| MkImage (im_size : jsnum * jsnum) (im_ops : list op).

Definition im_size (i : image) : jsnum * jsnum := let (s, _) := i in s.
Definition im_ops (i : image) : list op := let (_, o) := i in o.

Record ctx : Type := Ctx {
  c_size : jsnum * jsnum;
  c_matrix : affine;
  c_ops : list op
}.

(** [new MGraphics(w, h)]: a fresh context with the identity transform. *)
Definition new_MGraphics (w h : jsnum) : ctx := Ctx (w, h) identity_affine [].

(** Every context method appends its command to the log; the transform
    methods also update the matrix. *)
Definition ctx_do (o : op) (c : ctx) : ctx :=
  let m := c_matrix c in
  let m' := match o with
            | OScale sx sy => affine_scale sx sy m
            | OTranslate tx ty => affine_translate tx ty m
            | OSetMatrix m2 => m2
            | OIdentityMatrix => identity_affine
            | _ => m
            end in
  Ctx (c_size c) m' (c_ops c ++ [o]).

Definition get_matrix (c : ctx) : affine := c_matrix c.

(** [new Image(ctx)] *)
Definition Image_of (c : ctx) : image := MkImage (c_size c) (c_ops c).

(** Values the script sends to the host. *)
Inductive effect : Type :=
| Outlet (n : nat) (msg : string)
| Alloc (w h : jsnum)          (* new MGraphics(w, h) *)
| Redraw.                      (* mgraphics.redraw() *)

Definition q_of_Z (z : Z) : jsnum := JFin (inject_Z z).

(** JavaScript numeric literals used by the script. *)
Definition n1_5 : jsnum := JFin (3 # 2).
Definition n0_125 : jsnum := JFin (1 # 8).
Definition n2 : jsnum := JFin 2.
Definition n3 : jsnum := JFin 3.
Definition n5 : jsnum := JFin 5.
Definition n8 : jsnum := JFin 8.
Definition n10 : jsnum := JFin 10.

(** ** The script *)

(** Global variables of the script; [mgraphics] is the visible context. *)
Record state : Type := St {
  cachedImg : option image;
  imgScale : jsnum;
  idle : bool;
  useImage : bool;
  mgraphics : ctx
}.

(** [var cachedImg = null], [var imgScale = 2], [var idle = 0],
    [var useImage = 1]; the visible context is the host's. *)
Definition init_state (mg : ctx) : state := St None n2 false true mg.

Section Script.

(** [mg.text_measure(str)] is the host's font metric. *)
Variable text_measure : ctx -> string -> jsnum * jsnum.

Definition fox : string := "A quick brown fox jumps over the lazy dog.".

(** [drawStuff(mg)]; [mgraphics_size] is [mgraphics.size], read from the
    visible context whatever [mg] is.  The effects are the outlet calls. *)
Definition drawStuff (mgraphics_size : jsnum * jsnum) (mg : ctx)
    : ctx * list effect :=
  let _size := mgraphics_size in
  let mg := ctx_do (OSetLineWidth jone) mg in
  let mtx := get_matrix mg in
  let mg := ctx_do (OTranslate n1_5 n1_5) mg in
  let mg := ctx_do (ORectangle jzero jzero (jsub (fst _size) n3)
                                           (jsub (snd _size) n3)) mg in
  let mg := ctx_do (OSetSourceRgba "live_lcd_bg") mg in
  let mg := ctx_do OFillPreserve mg in
  let mg := ctx_do (OSetSourceRgba "live_lcd_control_fg") mg in
  let mg := ctx_do OStroke mg in
  let mg := ctx_do (OSetMatrix mtx) mg in
  let str := fox in
  let mg := ctx_do (OSelectFontFace "Ableton Sans Medium") mg in
  let mg := ctx_do (OSetFontSize n10) mg in
  let txtsize := text_measure mg str in
  let mg := ctx_do (OMoveTo n5 (jdiv (jadd (snd _size) (jdiv (snd txtsize) n2))
                                     n2)) mg in
  let mg := ctx_do (OSetSourceRgba "live_lcd_control_fg_alt") mg in
  let mg := ctx_do (OShowText str) mg in
  (mg, [Outlet 1 "bang"]).

(** [paint()]: the new state and the effects, in order. *)
Definition paint (st : state) : state * list effect :=
  let mg := mgraphics st in
  let size := c_size mg in
  let mg := ctx_do (ORectangle jzero jzero (fst size) (snd size)) mg in
  let mg := ctx_do (OSetSourceRgba "live_lcd_bg") mg in
  let mg := ctx_do OFill mg in
  let '(cache, mg, effs) :=
    if useImage st then
      let s := imgScale st in
      let '(img, effs) :=
        match cachedImg st with
        | Some img => (img, [])
        | None =>
            let tmp_mg := new_MGraphics (jmul (fst size) s) (jmul (snd size) s) in
            let tmp_mg := ctx_do (OScale s s) tmp_mg in
            let '(tmp_mg, e) := drawStuff size tmp_mg in
            (Image_of tmp_mg, Alloc (jmul (fst size) s) (jmul (snd size) s) :: e)
        end in
      let mg := ctx_do (OScale (jdiv jone s) (jdiv jone s)) mg in
      let mg := ctx_do (OImageSurfaceDraw img) mg in
      let mg := ctx_do OIdentityMatrix mg in
      (Some img, mg, effs)
    else
      let '(mg, e) := drawStuff size mg in
      (cachedImg st, mg, e) in
  let mg :=
    if idle st then
      let r_size := n5 in
      let mg := ctx_do (OSetSourceRgba "live_active_automation") mg in
      let mg := ctx_do (ORectangle (jsub (fst size) (jmul n2 r_size))
                                   (jdiv (jsub (snd size) r_size) n2)
                                   r_size r_size) mg in
      ctx_do OFill mg
    else mg in
  (St cache (imgScale st) (idle st) (useImage st) mg, effs ++ [Outlet 0 "bang"]).

End Script.

(** [msg_float(v)] *)
Definition msg_float (v : jsnum) (st : state) : state * list effect :=
  (St None (Math_max n0_125 (Math_min n8 v)) (idle st) (useImage st) (mgraphics st),
   [Redraw]).

(** [msg_int(v)] *)
Definition msg_int (v : jsnum) (st : state) : state * list effect :=
  msg_float v st.

(** [bang()] *)
Definition bang (st : state) : state * list effect :=
  (St None (imgScale st) (idle st) (useImage st) (mgraphics st), [Redraw]).

(** [onidle()] and [onidleout()] *)
Definition onidle (st : state) : state * list effect :=
  (St (cachedImg st) (imgScale st) true (useImage st) (mgraphics st), [Redraw]).

Definition onidleout (st : state) : state * list effect :=
  (St (cachedImg st) (imgScale st) false (useImage st) (mgraphics st), [Redraw]).

(** ** [parseInt] *)

(** The argument of a message reaches [parseInt] as its string form
    (ECMAScript ToString); strings are taken over ASCII. *)

(** StrWhiteSpaceChar restricted to ASCII: tab, LF, VT, FF, CR, space. *)
Definition is_js_space (c : ascii) : bool :=
  let n := nat_of_ascii c in
  ((9 <=? n) && (n <=? 13))%nat || (n =? 32)%nat.

Fixpoint trim_start (s : string) : string :=
  match s with
  | String c s' => if is_js_space c then trim_start s' else s
  | EmptyString => EmptyString
  end.

(** Value of [c] as a digit in radix [r] (2..36), if it is one. *)
Definition digit_value (r : Z) (c : ascii) : option Z :=
  (let n := Z.of_nat (nat_of_ascii c) in
  let d := if (48 <=? n) && (n <=? 57) then Some (n - 48)
           else if (97 <=? n) && (n <=? 122) then Some (n - 87)
           else if (65 <=? n) && (n <=? 90) then Some (n - 55)
           else None in
  match d with
  | Some v => if v <? r then Some v else None
  | None => None
  end)%Z.

(** The longest prefix of digits, accumulated in [acc] ([None] while no
    digit has been read). *)
Fixpoint parse_digits (r : Z) (s : string) (acc : option Z) : option Z :=
  match s with
  | String c s' =>
      match digit_value r c with
      | Some d =>
          parse_digits r s'
            (Some (match acc with Some a => a * r + d | None => d end)%Z)
      | None => acc
      end
  | EmptyString => acc
  end.

(** [parseInt(string)] with the radix argument omitted; [None] is NaN. *)
Definition parseInt (v : string) : option Z :=
  let s := trim_start v in
  let '(neg, s) :=
    match s with
    | String "-" s' => (true, s')
    | String "+" s' => (false, s')
    | _ => (false, s)
    end in
  let '(r, s) :=
    match s with
    | String "0" (String ("x" | "X") s') => (16%Z, s')
    | _ => (10%Z, s)
    end in
  match parse_digits r s None with
  | Some n => Some (if neg then Z.opp n else n)
  | None => None
  end.

(** [parseInt(v) == 0]: NaN compares unequal to everything. *)
Definition parseInt_eq0 (v : string) : bool :=
  match parseInt v with Some n => Z.eqb n 0 | None => false end.

(** [direct_draw(v)] *)
Definition direct_draw (v : string) (st : state) : state * list effect :=
  (St None (imgScale st) (idle st) (parseInt_eq0 v) (mgraphics st), [Redraw]).

(** ** The host *)

(** Messages the jsui object receives, and paint requests.  A paint
    request brings the visible context as Max hands it to [paint]: the
    current box size, the identity transform and nothing drawn yet. *)
Inductive host_event : Type :=
| EvPaint (w h : jsnum)
| EvFloat (v : jsnum)
| EvInt (v : Z)
| EvBang
| EvIdle
| EvIdleOut
| EvDirectDraw (v : string).

Definition with_mgraphics (mg : ctx) (st : state) : state :=
  St (cachedImg st) (imgScale st) (idle st) (useImage st) mg.

Definition handle (text_measure : ctx -> string -> jsnum * jsnum)
    (ev : host_event) (st : state) : state * list effect :=
  match ev with
  | EvPaint w h => paint text_measure (with_mgraphics (new_MGraphics w h) st)
  | EvFloat v => msg_float v st
  | EvInt v => msg_int (q_of_Z v) st
  | EvBang => bang st
  | EvIdle => onidle st
  | EvIdleOut => onidleout st
  | EvDirectDraw v => direct_draw v st
  end.

Inductive reachable (tm : ctx -> string -> jsnum * jsnum) : state -> Prop :=
| reach_init (mg : ctx) : reachable tm (init_state mg)
| reach_step (ev : host_event) (st : state) :
    reachable tm st -> reachable tm (fst (handle tm ev st)).

(** Number of [drawStuff] executions among effects: its [outlet(1, "bang")]. *)
Definition is_draw_signal (e : effect) : bool :=
  match e with Outlet 1 _ => true | _ => false end.

Definition draw_count (effs : list effect) : nat :=
  List.length (filter is_draw_signal effs).

Definition is_alloc (e : effect) : bool :=
  match e with Alloc _ _ => true | _ => false end.

Definition alloc_count (effs : list effect) : nat :=
  List.length (filter is_alloc effs).

(** Scale at which an image was built: the scale its context received
    first. *)
Definition built_at_scale (img : image) : option jsnum :=
  match im_ops img with
  | OScale sx _ :: _ => Some sx
  | _ => None
  end.

Definition is_scale_op (o : op) : bool :=
  match o with OScale _ _ => true | _ => false end.

Definition rectangles (l : list op) : list op :=
  filter (fun o => match o with ORectangle _ _ _ _ => true | _ => false end) l.

(** A font metric for concrete runs. *)
Definition tm_fixed : ctx -> string -> jsnum * jsnum :=
  fun _ _ => (JFin 200, JFin 10).

Example parseInt_ex1 : parseInt "  -0x1A" = Some (-26)%Z.
Proof. reflexivity. Qed.
Example parseInt_ex2 : parseInt "foo" = None.
Proof. reflexivity. Qed.
Example parseInt_ex3 : parseInt "0.5" = Some 0%Z.
Proof. reflexivity. Qed.
Example msg_float_ex : imgScale (fst (msg_float (JFin 10) (init_state (new_MGraphics n10 n10)))) = n8.
Proof. reflexivity. Qed.
Example paint_ex :
  let '(st1, e1) := paint tm_fixed (init_state (new_MGraphics (JFin 200) (JFin 100))) in
  draw_count e1 = 1%nat /\
  option_map im_size (cachedImg st1) = Some (JFin 400, JFin 200).
Proof. vm_compute. split; reflexivity. Qed.

(** ** Properties of [drawStuff] *)

Section DrawStuff.

Variable tm : ctx -> string -> jsnum * jsnum.

(** The commands [drawStuff] appends to its target before measuring the
    label, given the target's transform [mtx] on entry. *)
Definition drawStuff_prefix (sz : jsnum * jsnum) (mtx : affine) : list op :=
  [OSetLineWidth jone; OTranslate n1_5 n1_5;
   ORectangle jzero jzero (jsub (fst sz) n3) (jsub (snd sz) n3);
   OSetSourceRgba "live_lcd_bg"; OFillPreserve;
   OSetSourceRgba "live_lcd_control_fg"; OStroke; OSetMatrix mtx;
   OSelectFontFace "Ableton Sans Medium"; OSetFontSize n10].

(** All the commands [drawStuff] appends to its target. *)
Definition drawStuff_ops (sz : jsnum * jsnum) (mg : ctx) : list op :=
  let mtx := c_matrix mg in
  let txtsize := tm (Ctx (c_size mg) mtx (c_ops mg ++ drawStuff_prefix sz mtx)) fox in
  drawStuff_prefix sz mtx ++
  [OMoveTo n5 (jdiv (jadd (snd sz) (jdiv (snd txtsize) n2)) n2);
   OSetSourceRgba "live_lcd_control_fg_alt"; OShowText fox].

Lemma drawStuff_ctx (sz : jsnum * jsnum) (mg : ctx) :
  fst (drawStuff tm sz mg) = Ctx (c_size mg) (c_matrix mg) (c_ops mg ++ drawStuff_ops sz mg).
Proof.
  destruct mg as [size m ops].
  unfold drawStuff, drawStuff_ops, drawStuff_prefix, ctx_do, get_matrix.
  cbn. repeat rewrite <- app_assoc. reflexivity.
Qed.

Lemma drawStuff_effects (sz : jsnum * jsnum) (mg : ctx) :
  snd (drawStuff tm sz mg) = [Outlet 1 "bang"].
Proof. reflexivity. Qed.

Lemma drawStuff_pair (sz : jsnum * jsnum) (mg : ctx) :
  drawStuff tm sz mg =
  (Ctx (c_size mg) (c_matrix mg) (c_ops mg ++ drawStuff_ops sz mg), [Outlet 1 "bang"]).
Proof.
  rewrite <- drawStuff_ctx, <- (drawStuff_effects sz mg). apply surjective_pairing.
Qed.

Lemma drawStuff_ops_no_scale (sz : jsnum * jsnum) (mg : ctx) :
  forallb (fun o => negb (is_scale_op o)) (drawStuff_ops sz mg) = true.
Proof. reflexivity. Qed.

Lemma drawStuff_ops_no_identity (sz : jsnum * jsnum) (mg : ctx) :
  ~ In OIdentityMatrix (drawStuff_ops sz mg).
Proof. cbn. intuition discriminate. Qed.

End DrawStuff.

(** ** Properties of [paint] *)

Section Paint.

Variable tm : ctx -> string -> jsnum * jsnum.

(** The off-screen context built on a cache miss, before [drawStuff]. *)
Definition offscreen (st : state) : ctx :=
  let size := c_size (mgraphics st) in
  let s := imgScale st in
  ctx_do (OScale s s) (new_MGraphics (jmul (fst size) s) (jmul (snd size) s)).

Lemma paint_globals (st : state) :
  imgScale (fst (paint tm st)) = imgScale st /\
  idle (fst (paint tm st)) = idle st /\
  useImage (fst (paint tm st)) = useImage st.
Proof.
  unfold paint. destruct (useImage st), (cachedImg st), (idle st); cbn; auto.
Qed.

Lemma paint_hit (st : state) (img : image) :
  useImage st = true -> cachedImg st = Some img ->
  cachedImg (fst (paint tm st)) = Some img /\
  snd (paint tm st) = [Outlet 0 "bang"].
Proof.
  intros Hu Hc. unfold paint. rewrite Hu, Hc. destruct (idle st); cbn; auto.
Qed.

Lemma paint_miss (st : state) :
  useImage st = true -> cachedImg st = None ->
  let size := c_size (mgraphics st) in
  let s := imgScale st in
  cachedImg (fst (paint tm st)) =
    Some (Image_of (fst (drawStuff tm size (offscreen st)))) /\
  snd (paint tm st) =
    [Alloc (jmul (fst size) s) (jmul (snd size) s); Outlet 1 "bang"; Outlet 0 "bang"].
Proof.
  intros Hu Hc. unfold paint, offscreen. rewrite Hu, Hc.
  destruct (idle st); cbn; auto.
Qed.

Lemma paint_direct (st : state) :
  useImage st = false ->
  cachedImg (fst (paint tm st)) = cachedImg st /\
  snd (paint tm st) = [Outlet 1 "bang"; Outlet 0 "bang"].
Proof.
  intros Hu. unfold paint. rewrite Hu. destruct (idle st); cbn; auto.
Qed.

End Paint.

(** ** The cache invariant *)

(** A cached image was built at the current [imgScale], and only in image
    mode. *)
Definition cache_coherent (st : state) : Prop :=
  forall img, cachedImg st = Some img ->
  built_at_scale img = Some (imgScale st) /\ useImage st = true.

Lemma offscreen_built_at (tm : ctx -> string -> jsnum * jsnum) (st : state) :
  built_at_scale (Image_of (fst (drawStuff tm (c_size (mgraphics st)) (offscreen st))))
  = Some (imgScale st).
Proof. rewrite drawStuff_ctx. reflexivity. Qed.

Lemma reachable_coherent (tm : ctx -> string -> jsnum * jsnum) (st : state) :
  reachable tm st -> cache_coherent st.
Proof.
  induction 1 as [mg | ev st Hr IH].
  - intros img H. discriminate.
  - destruct ev as [w h | v | v | | | | v]; cbn [handle].
    + set (st' := with_mgraphics (new_MGraphics w h) st).
      destruct (paint_globals tm st') as (Hs & _ & Hu').
      intros img Himg. rewrite Hs in *. rewrite Hu'.
      destruct (useImage st) eqn:Hu.
      * destruct (cachedImg st) as [i|] eqn:Hc.
        -- destruct (paint_hit tm st' i Hu Hc) as [Hc' _].
           rewrite Hc' in Himg. injection Himg as <-. exact (IH i Hc).
        -- destruct (paint_miss tm st' Hu Hc) as [Hc' _].
           rewrite Hc' in Himg. injection Himg as <-.
           split; [apply offscreen_built_at | exact Hu].
      * destruct (paint_direct tm st' Hu) as [Hc' _].
        rewrite Hc' in Himg. destruct (IH img Himg) as [_ H]. congruence.
    + intros img H. discriminate.
    + intros img H. discriminate.
    + intros img H. discriminate.
    + exact IH.
    + exact IH.
    + intros img H. discriminate.
Qed.

(** A concrete initial visible context and the state after the first
    paint of a 200x100 box. *)
Definition box : ctx := new_MGraphics (JFin 200) (JFin 100).

Definition st_painted : state :=
  fst (handle tm_fixed (EvPaint (JFin 200) (JFin 100)) (init_state box)).

Lemma st_painted_reachable : reachable tm_fixed st_painted.
Proof. apply reach_step. apply reach_init. Qed.

(** ** Claims *)

(** C1: for a scale factor [s] in [0.125, 8], a paint that builds the
    cache runs [drawStuff] once and allocates the off-screen context;
    the next paint in image mode, with no message in between (the visible
    context may be any), runs [drawStuff] zero times and allocates
    nothing: exactly one run across the two paints. *)
Theorem paint_twice_draws_once (tm : ctx -> string -> jsnum * jsnum)
    (st : state) (q : Q) (mg2 : ctx)
    (Hs : imgScale st = JFin q) (Hq : (1 # 8 <= q <= 8)%Q)
    (Hu : useImage st = true) (Hc : cachedImg st = None) :
  let st1 := fst (paint tm st) in
  let e1 := snd (paint tm st) in
  let e2 := snd (paint tm (with_mgraphics mg2 st1)) in
  draw_count e1 = 1%nat /\ alloc_count e1 = 1%nat /\
  draw_count e2 = 0%nat /\ alloc_count e2 = 0%nat /\
  draw_count (e1 ++ e2) = 1%nat /\
  cachedImg (fst (paint tm (with_mgraphics mg2 st1))) = cachedImg st1.
Proof.
  cbv zeta.
  destruct (paint_miss tm st Hu Hc) as [Hc1 He1].
  destruct (paint_globals tm st) as (_ & _ & Hu1).
  assert (Hu2 : useImage (with_mgraphics mg2 (fst (paint tm st))) = true)
    by (cbn; congruence).
  destruct (paint_hit tm (with_mgraphics mg2 (fst (paint tm st))) _ Hu2 Hc1)
    as [Hc2 He2].
  rewrite He1, He2, Hc2, Hc1. repeat split; reflexivity.
Qed.

Lemma paint_twice_draws_once_witness :
  imgScale (init_state box) = JFin 2 /\ (1 # 8 <= 2 <= 8)%Q /\
  useImage (init_state box) = true /\ cachedImg (init_state box) = None /\
  draw_count (snd (paint tm_fixed (init_state box))) = 1%nat.
Proof.
  refine (conj eq_refl (conj _ (conj eq_refl (conj eq_refl _)))).
  - split; vm_compute; discriminate.
  - apply (paint_twice_draws_once tm_fixed (init_state box) 2 box eq_refl);
      [split; vm_compute; discriminate | reflexivity | reflexivity].
Defined.

(** C2: in every reachable state a cached image was built at the current
    [imgScale]; [msg_float], [msg_int], [bang] and [direct_draw] clear the
    cache in the same call that requests the repaint. *)
Theorem cache_matches_scale (tm : ctx -> string -> jsnum * jsnum) (st : state)
    (Hr : reachable tm st) :
  (forall img, cachedImg st = Some img -> built_at_scale img = Some (imgScale st)) /\
  (forall v st0, cachedImg (fst (msg_float v st0)) = None /\
                 snd (msg_float v st0) = [Redraw]) /\
  (forall v st0, cachedImg (fst (msg_int v st0)) = None /\
                 snd (msg_int v st0) = [Redraw]) /\
  (forall st0, cachedImg (fst (bang st0)) = None /\ snd (bang st0) = [Redraw]) /\
  (forall v st0, cachedImg (fst (direct_draw v st0)) = None /\
                 snd (direct_draw v st0) = [Redraw]).
Proof.
  split; [| repeat split].
  intros img H. exact (proj1 (reachable_coherent tm st Hr img H)).
Qed.

Lemma cache_matches_scale_witness :
  reachable tm_fixed st_painted /\
  built_at_scale (MkImage (JFin 400, JFin 200) [OScale n2 n2]) = Some n2 /\
  (forall img, cachedImg st_painted = Some img ->
               built_at_scale img = Some (imgScale st_painted)).
Proof.
  split; [apply reach_step, reach_init | split; [reflexivity |]].
  apply (cache_matches_scale tm_fixed st_painted (reach_step _ _ _ (reach_init _ _))).
Defined.

(** C3: on a cache miss the off-screen context is allocated at
    [(W * s, H * s)] for the visible size [(W, H)] and [s = imgScale];
    its first command is [scale(s, s)], no other [scale] follows, and the
    rest is what [drawStuff] draws into it. *)
Theorem paint_miss_allocates_scaled (tm : ctx -> string -> jsnum * jsnum)
    (st : state) (Hu : useImage st = true) (Hc : cachedImg st = None) :
  let size := c_size (mgraphics st) in
  let s := imgScale st in
  exists img rest,
    cachedImg (fst (paint tm st)) = Some img /\
    filter is_alloc (snd (paint tm st)) =
      [Alloc (jmul (fst size) s) (jmul (snd size) s)] /\
    im_size img = (jmul (fst size) s, jmul (snd size) s) /\
    im_ops img = OScale s s :: rest /\
    forallb (fun o => negb (is_scale_op o)) rest = true /\
    img = Image_of (fst (drawStuff tm size (offscreen st))) /\
    rest = drawStuff_ops tm size (offscreen st) /\
    draw_count (snd (paint tm st)) = 1%nat.
Proof.
  cbv zeta. destruct (paint_miss tm st Hu Hc) as [Hc' He].
  eexists _, _. rewrite Hc', He.
  split; [reflexivity |]. split; [reflexivity |].
  rewrite drawStuff_ctx. cbn [Image_of im_size im_ops c_size c_ops offscreen ctx_do new_MGraphics].
  split; [reflexivity |]. split; [reflexivity |].
  split; [apply drawStuff_ops_no_scale |].
  split; [reflexivity |].
  split; reflexivity.
Qed.

Lemma paint_miss_allocates_scaled_witness :
  useImage (init_state box) = true /\ cachedImg (init_state box) = None /\
  exists img, cachedImg (fst (paint tm_fixed (init_state box))) = Some img /\
              im_size img = (JFin 400, JFin 200).
Proof.
  split; [reflexivity | split; [reflexivity |]].
  destruct (paint_miss_allocates_scaled tm_fixed (init_state box) eq_refl eq_refl)
    as (img & rest & H1 & _ & H3 & _).
  exists img. split; [exact H1 | rewrite H3; reflexivity].
Defined.

Lemma paint_cached_matrix (tm : ctx -> string -> jsnum * jsnum) (st : state) :
  useImage st = true -> c_matrix (mgraphics (fst (paint tm st))) = identity_affine.
Proof.
  intros Hu. unfold paint. rewrite Hu.
  destruct (cachedImg st), (idle st); reflexivity.
Qed.

(** C4: every paint the host requests starts from the visible context
    Max hands to [paint], whose transform is the identity; in image mode the
    [scale(1/s, 1/s)] applied for the composite is undone by
    [identity_matrix()], so after the paint the visible transform equals its
    pre-paint transform. *)
Theorem paint_cached_restores_transform (tm : ctx -> string -> jsnum * jsnum)
    (st : state) (w h : jsnum) (Hu : useImage st = true) :
  c_matrix (mgraphics (fst (handle tm (EvPaint w h) st)))
  = c_matrix (new_MGraphics w h) /\
  In (OScale (jdiv jone (imgScale st)) (jdiv jone (imgScale st)))
     (c_ops (mgraphics (fst (handle tm (EvPaint w h) st)))) /\
  In OIdentityMatrix (c_ops (mgraphics (fst (handle tm (EvPaint w h) st)))).
Proof.
  cbn [handle].
  split; [apply paint_cached_matrix; exact Hu |].
  unfold paint. cbn [with_mgraphics useImage cachedImg idle mgraphics imgScale].
  rewrite Hu. destruct (cachedImg st), (idle st); cbn; tauto.
Qed.

Lemma paint_cached_restores_transform_witness :
  useImage st_painted = true /\
  c_matrix (mgraphics (fst (handle tm_fixed (EvPaint (JFin 200) (JFin 100)) st_painted)))
  = identity_affine.
Proof.
  split; [reflexivity |].
  exact (proj1 (paint_cached_restores_transform tm_fixed st_painted
                  (JFin 200) (JFin 100) eq_refl)).
Defined.

(** C5: [drawStuff] draws its border rectangle from [mgraphics.size] alone:
    whatever the target context (its size, transform and history), the one
    rectangle is [(0, 0, W - 3, H - 3)]; in particular the cached image of
    a miss holds the rectangle of the visible size, not of the upscaled
    off-screen size. *)
Theorem drawStuff_rect_from_visible_size (tm : ctx -> string -> jsnum * jsnum)
    (sz : jsnum * jsnum) (mg : ctx) :
  rectangles (c_ops (fst (drawStuff tm sz mg))) =
    rectangles (c_ops mg) ++
    [ORectangle jzero jzero (jsub (fst sz) n3) (jsub (snd sz) n3)] /\
  (forall st, useImage st = true -> cachedImg st = None ->
   exists img, cachedImg (fst (paint tm st)) = Some img /\
     rectangles (im_ops img) =
       [ORectangle jzero jzero (jsub (fst (c_size (mgraphics st))) n3)
                               (jsub (snd (c_size (mgraphics st))) n3)]).
Proof.
  split.
  - rewrite drawStuff_ctx. cbn [c_ops]. unfold rectangles.
    rewrite filter_app. reflexivity.
  - intros st Hu Hc. destruct (paint_miss tm st Hu Hc) as [Hc' _].
    eexists. split; [exact Hc' |].
    rewrite drawStuff_ctx. reflexivity.
Qed.

Lemma drawStuff_rect_from_visible_size_witness :
  useImage (init_state box) = true /\ cachedImg (init_state box) = None /\
  exists img, cachedImg (fst (paint tm_fixed (init_state box))) = Some img /\
    rectangles (im_ops img) =
      [ORectangle jzero jzero (jsub (JFin 200) n3) (jsub (JFin 100) n3)].
Proof.
  split; [reflexivity | split; [reflexivity |]].
  exact (proj2 (drawStuff_rect_from_visible_size tm_fixed (JFin 200, JFin 100) box)
           (init_state box) eq_refl eq_refl).
Defined.

(** C6: [drawStuff] gives its target back the transform it had on entry:
    it translates by (1.5, 1.5) right after setting the line width, and
    restores with [set_matrix] of the saved matrix, never with
    [identity_matrix]. *)
Theorem drawStuff_restores_matrix (tm : ctx -> string -> jsnum * jsnum)
    (sz : jsnum * jsnum) (mg : ctx) :
  c_matrix (fst (drawStuff tm sz mg)) = c_matrix mg /\
  c_size (fst (drawStuff tm sz mg)) = c_size mg /\
  firstn 2 (drawStuff_ops tm sz mg) = [OSetLineWidth jone; OTranslate n1_5 n1_5] /\
  In (OSetMatrix (c_matrix mg)) (drawStuff_ops tm sz mg) /\
  ~ In OIdentityMatrix (drawStuff_ops tm sz mg).
Proof.
  rewrite drawStuff_ctx. cbn [c_matrix c_size].
  split; [reflexivity | split; [reflexivity | split; [reflexivity |]]].
  split; [cbn; tauto | apply drawStuff_ops_no_identity].
Qed.

(** ** The scale-factor handler against the spec's clamp *)

Definition in_scale_range (r : jsnum) : Prop :=
  match r with JFin q => (1 # 8 <= q <= 8)%Q | _ => False end.

Lemma Qle_bool_cases (x y : Q) :
  (Qle_bool x y = true /\ (x <= y)%Q) \/ (Qle_bool x y = false /\ (y < x)%Q).
Proof.
  destruct (Qle_bool x y) eqn:E.
  - left. split; [reflexivity | apply Qle_bool_iff; exact E].
  - right. split; [reflexivity |]. apply Qnot_le_lt. intro H.
    apply Qle_bool_iff in H. congruence.
Qed.

Ltac qle_cases :=
  repeat match goal with
  | |- context [Qle_bool ?x ?y] =>
      destruct (Qle_bool_cases x y) as [[-> ?] | [-> ?]]
  end.

(** C7 (code bug): [Math.max(0.125, Math.min(8, v))] lets NaN through: a
    NaN float message stores NaN as the scale factor, outside
    [[0.125, 8]]. *)
Lemma msg_float_nan_not_clamped :
  ~ in_scale_range (imgScale (fst (msg_float JNaN (init_state box)))).
Proof. vm_compute. intro H. exact H. Qed.

(** C8: [onidle] and [onidleout] set [idle] and request a repaint without
    touching the cache; from any reachable state with a cached image, the
    sequence hover-enter, paint, hover-leave, paint runs [drawStuff] zero
    times and ends with the same cached image. *)
Theorem hover_keeps_cache (tm : ctx -> string -> jsnum * jsnum) (st : state)
    (mg1 mg2 : ctx) (Hr : reachable tm st) (Hc : cachedImg st <> None) :
  let s1 := fst (onidle st) in
  let p2 := paint tm (with_mgraphics mg1 s1) in
  let s3 := fst (onidleout (fst p2)) in
  let p4 := paint tm (with_mgraphics mg2 s3) in
  idle s1 = true /\ snd (onidle st) = [Redraw] /\ cachedImg s1 = cachedImg st /\
  idle s3 = false /\ snd (onidleout (fst p2)) = [Redraw] /\
  cachedImg s3 = cachedImg (fst p2) /\
  draw_count (snd p2 ++ snd p4) = 0%nat /\
  cachedImg (fst p4) = cachedImg st.
Proof.
  cbv zeta.
  destruct (cachedImg st) as [img |] eqn:E; [| contradiction].
  destruct (reachable_coherent tm st Hr img E) as [_ Hu].
  assert (Hu1 : useImage (with_mgraphics mg1 (fst (onidle st))) = true) by exact Hu.
  assert (Hc1 : cachedImg (with_mgraphics mg1 (fst (onidle st))) = Some img) by exact E.
  destruct (paint_hit tm _ img Hu1 Hc1) as [Hc2 He2].
  destruct (paint_globals tm (with_mgraphics mg1 (fst (onidle st)))) as (_ & _ & Hu2).
  set (p2 := paint tm (with_mgraphics mg1 (fst (onidle st)))) in *.
  assert (Hu3 : useImage (with_mgraphics mg2 (fst (onidleout (fst p2)))) = true)
    by (cbn; rewrite Hu2; exact Hu).
  assert (Hc3 : cachedImg (with_mgraphics mg2 (fst (onidleout (fst p2)))) = Some img)
    by exact Hc2.
  destruct (paint_hit tm _ img Hu3 Hc3) as [Hc4 He4].
  rewrite He2, He4, Hc4.
  repeat split; cbn; auto.
Qed.

Lemma hover_keeps_cache_witness :
  reachable tm_fixed st_painted /\ cachedImg st_painted <> None /\
  cachedImg (fst (paint tm_fixed (with_mgraphics box
    (fst (onidleout (fst (paint tm_fixed (with_mgraphics box
      (fst (onidle st_painted)))))))))) = cachedImg st_painted.
Proof.
  split; [apply reach_step, reach_init |].
  split; [vm_compute; discriminate |].
  exact (proj2 (proj2 (proj2 (proj2 (proj2 (proj2 (proj2
    (hover_keeps_cache tm_fixed st_painted box box
       (reach_step _ _ _ (reach_init _ _)) ltac:(vm_compute; discriminate))))))))).
Defined.

(** A box of width 0. *)
Definition st_zero_width : state := init_state (new_MGraphics jzero (JFin 50)).

(** C9 (counterexample): a paint of a box of width 0 is not skipped: it
    draws into the visible context and sends the paint notification. *)
Lemma paint_zero_width_not_skipped :
  c_ops (mgraphics (fst (paint tm_fixed st_zero_width))) <> [] /\
  In (Outlet 0 "bang") (snd (paint tm_fixed st_zero_width)).
Proof. split; vm_compute; [discriminate | tauto]. Qed.

(** The visible context after the background fill of [paint]. *)
Definition bg_ctx (st : state) : ctx :=
  let size := c_size (mgraphics st) in
  ctx_do OFill (ctx_do (OSetSourceRgba "live_lcd_bg")
    (ctx_do (ORectangle jzero jzero (fst size) (snd size)) (mgraphics st))).

(** The hover indicator [paint] draws when [idle] is set. *)
Definition overlay_ops (st : state) : list op :=
  let size := c_size (mgraphics st) in
  if idle st then
    [OSetSourceRgba "live_active_automation";
     ORectangle (jsub (fst size) (jmul n2 n5)) (jdiv (jsub (snd size) n5) n2) n5 n5;
     OFill]
  else [].

(** C9 (amended): [paint] does not look at the sign of the surface size:
    for every size, non-positive included, it fills the background
    rectangle [(0, 0, W, H)]; in image mode it composites the cached image
    under [scale(1/s, 1/s)] (building it first, with one allocation and one
    run of [drawStuff], on a miss) and resets the transform; in direct mode
    it runs [drawStuff] on the visible context; then it draws the hover
    indicator when [idle] is set and ends with [outlet(0, "bang")].  What it
    sends the host is exactly the allocation and the outlet bangs: no error
    report. *)
Theorem paint_never_checks_size (tm : ctx -> string -> jsnum * jsnum) (st : state) :
  let size := c_size (mgraphics st) in
  let s := imgScale st in
  let img := match cachedImg st with
             | Some i => i
             | None => Image_of (fst (drawStuff tm size (offscreen st)))
             end in
  c_ops (mgraphics (fst (paint tm st))) =
    c_ops (mgraphics st) ++
    [ORectangle jzero jzero (fst size) (snd size); OSetSourceRgba "live_lcd_bg"; OFill] ++
    (if useImage st
     then [OScale (jdiv jone s) (jdiv jone s); OImageSurfaceDraw img; OIdentityMatrix]
     else drawStuff_ops tm size (bg_ctx st)) ++
    overlay_ops st /\
  snd (paint tm st) =
    (if useImage st then
       match cachedImg st with
       | Some _ => []
       | None => [Alloc (jmul (fst size) s) (jmul (snd size) s); Outlet 1 "bang"]
       end
     else [Outlet 1 "bang"]) ++ [Outlet 0 "bang"].
Proof.
  cbv zeta. unfold paint, overlay_ops, bg_ctx, offscreen.
  destruct (useImage st); [destruct (cachedImg st) |]; destruct (idle st);
    rewrite ?drawStuff_pair; cbn; repeat rewrite <- app_assoc;
    split; reflexivity.
Qed.



(** ** Further properties of the script *)

Lemma msg_float_in_range (v : jsnum) (st : state) :
  is_nan v = false -> in_scale_range (imgScale (fst (msg_float v st))).
Proof.
  intros Hv. unfold msg_float, Math_min, Math_max, in_scale_range. cbn [imgScale fst].
  destruct v as [q | | |]; [| discriminate Hv | |];
    cbn; qle_cases; cbn; qle_cases; cbn; lra.
Qed.

(** [paint] in direct mode runs [drawStuff] once on the visible context,
    allocates nothing, keeps the cache as it is and gives the visible
    context back its transform. *)
Theorem paint_direct_mode (tm : ctx -> string -> jsnum * jsnum) (st : state)
    (Hu : useImage st = false) :
  draw_count (snd (paint tm st)) = 1%nat /\
  alloc_count (snd (paint tm st)) = 0%nat /\
  cachedImg (fst (paint tm st)) = cachedImg st /\
  c_matrix (mgraphics (fst (paint tm st))) = c_matrix (mgraphics st).
Proof.
  destruct (paint_direct tm st Hu) as [Hc He]. rewrite He, Hc.
  split; [reflexivity | split; [reflexivity | split; [reflexivity |]]].
  unfold paint. rewrite Hu. destruct (idle st); reflexivity.
Qed.

Lemma paint_direct_mode_witness :
  useImage (fst (direct_draw "1" (init_state box))) = false /\
  draw_count (snd (paint tm_fixed (fst (direct_draw "1" (init_state box))))) = 1%nat.
Proof.
  split; [reflexivity |].
  exact (proj1 (paint_direct_mode tm_fixed (fst (direct_draw "1" (init_state box))) eq_refl)).
Defined.

(** Every paint sends exactly one [outlet(0, "bang")], as its last effect,
    and runs [drawStuff] once, except on a cache hit in image mode where it
    runs it zero times. *)
Theorem paint_signals (tm : ctx -> string -> jsnum * jsnum) (st : state) :
  List.length (filter (fun e => match e with Outlet 0 _ => true | _ => false end)
                 (snd (paint tm st))) = 1%nat /\
  last (snd (paint tm st)) Redraw = Outlet 0 "bang" /\
  draw_count (snd (paint tm st)) =
    (if useImage st then match cachedImg st with Some _ => 0 | None => 1 end
     else 1)%nat.
Proof.
  unfold paint. destruct (useImage st); [destruct (cachedImg st) |];
    destruct (idle st); cbn; repeat split.
Qed.

(** In every reachable state the scale factor lies in [[0.125, 8]], or is
    NaN (only a NaN float message stores one). *)
Theorem reachable_scale_range (tm : ctx -> string -> jsnum * jsnum) (st : state)
    (Hr : reachable tm st) :
  (in_scale_range (imgScale st) \/ imgScale st = JNaN) /\
  (forall ev st', imgScale st' <> JNaN ->
     imgScale (fst (handle tm ev st')) = JNaN -> ev = EvFloat JNaN).
Proof.
  split.
  2: { intros ev st' Hn Hev.
       destruct ev as [w h | v | v | | | | v]; cbn [handle] in Hev.
       - rewrite (proj1 (paint_globals tm _)) in Hev. contradiction.
       - destruct (is_nan v) eqn:Hv.
         + destruct v; try discriminate Hv. reflexivity.
         + pose proof (msg_float_in_range v st' Hv) as H.
           rewrite Hev in H. contradiction.
       - pose proof (msg_float_in_range (q_of_Z v) st' eq_refl) as H.
         unfold msg_int in Hev. rewrite Hev in H. contradiction.
       - contradiction.
       - contradiction.
       - contradiction.
       - contradiction. }
  induction Hr as [mg | ev st Hr IH].
  - left. cbn. split; vm_compute; discriminate.
  - destruct ev as [w h | v | v | | | | v]; cbn [handle].
    + rewrite (proj1 (paint_globals tm _)). exact IH.
    + destruct (is_nan v) eqn:Hv.
      * right. destruct v; try discriminate Hv. reflexivity.
      * left. apply msg_float_in_range. exact Hv.
    + left. apply msg_float_in_range. reflexivity.
    + exact IH.
    + exact IH.
    + exact IH.
    + exact IH.
Qed.

Lemma reachable_scale_range_witness :
  reachable tm_fixed st_painted /\ in_scale_range (imgScale st_painted).
Proof.
  split; [apply reach_step, reach_init |].
  destruct (proj1 (reachable_scale_range tm_fixed st_painted
              (reach_step _ _ _ (reach_init _ _)))) as [H | H];
    [exact H | vm_compute in H; discriminate H].
Defined.

(** An integer message ([msg_int]) always stores a scale factor in
    [[0.125, 8]]: 0 and negative integers store 0.125, integers above 8
    store 8. *)
Theorem msg_int_in_range (z : Z) (st : state) :
  in_scale_range (imgScale (fst (msg_int (q_of_Z z) st))) /\
  ((z <= 0)%Z -> imgScale (fst (msg_int (q_of_Z z) st)) = n0_125) /\
  ((8 < z)%Z -> imgScale (fst (msg_int (q_of_Z z) st)) = n8).
Proof.
  split; [apply msg_float_in_range; reflexivity |].
  unfold msg_int, msg_float, Math_min, Math_max, q_of_Z. cbn [imgScale fst is_nan orb].
  split; intros Hz.
  - assert (Hq : (inject_Z z <= inject_Z 0)%Q) by (rewrite <- Zle_Qle; exact Hz).
    change (inject_Z 0) with 0%Q in Hq.
    cbn. qle_cases; cbn; qle_cases; cbn; try reflexivity; lra.
  - assert (Hq : (inject_Z 8 < inject_Z z)%Q) by (rewrite <- Zlt_Qlt; exact Hz).
    change (inject_Z 8) with 8%Q in Hq.
    cbn. qle_cases; cbn; qle_cases; cbn; try reflexivity; lra.
Qed.

Lemma msg_int_in_range_witness :
  imgScale (fst (msg_int (q_of_Z (-3)) (init_state box))) = n0_125.
Proof. apply (proj1 (proj2 (msg_int_in_range (-3) (init_state box)))). lia. Defined.

(** In every reachable state a cached image exists only in image mode. *)
Theorem reachable_cache_image_mode (tm : ctx -> string -> jsnum * jsnum)
    (st : state) (Hr : reachable tm st) :
  cachedImg st <> None -> useImage st = true.
Proof.
  intros Hc. destruct (cachedImg st) as [img |] eqn:E; [| contradiction].
  exact (proj2 (reachable_coherent tm st Hr img E)).
Qed.

Lemma reachable_cache_image_mode_witness :
  reachable tm_fixed st_painted /\ useImage st_painted = true.
Proof.
  split; [apply reach_step, reach_init |].
  apply (reachable_cache_image_mode tm_fixed st_painted
           (reach_step _ _ _ (reach_init _ _))).
  vm_compute. discriminate.
Defined.

(** [bang()] followed by a paint in image mode rebuilds the cache: one run
    of [drawStuff], one allocation at the current visible size times the
    scale factor. *)
Theorem bang_then_paint_rebuilds (tm : ctx -> string -> jsnum * jsnum)
    (st : state) (Hu : useImage st = true) :
  let size := c_size (mgraphics st) in
  let s := imgScale st in
  let p := paint tm (fst (bang st)) in
  snd (bang st) = [Redraw] /\
  draw_count (snd p) = 1%nat /\
  filter is_alloc (snd p) = [Alloc (jmul (fst size) s) (jmul (snd size) s)] /\
  (exists img, cachedImg (fst p) = Some img /\ built_at_scale img = Some s).
Proof.
  cbv zeta.
  destruct (paint_miss tm (fst (bang st)) Hu eq_refl) as [Hc He].
  rewrite He, Hc. cbn [snd bang fst mgraphics imgScale].
  split; [reflexivity | split; [reflexivity | split; [reflexivity |]]].
  eexists. split; [reflexivity |]. apply (offscreen_built_at tm (fst (bang st))).
Qed.

Lemma bang_then_paint_rebuilds_witness :
  useImage st_painted = true /\
  draw_count (snd (paint tm_fixed (fst (bang st_painted)))) = 1%nat.
Proof.
  split; [reflexivity |].
  exact (proj1 (proj2 (bang_then_paint_rebuilds tm_fixed st_painted eq_refl))).
Defined.

(** [direct_draw(v)] followed by a paint: when [parseInt(v)] is 0 the paint
    rebuilds the cache (one run of [drawStuff], one allocation); otherwise
    it draws directly, allocates nothing and leaves the cache empty. *)
Theorem direct_draw_then_paint (tm : ctx -> string -> jsnum * jsnum)
    (v : string) (st : state) :
  let p := paint tm (fst (direct_draw v st)) in
  (parseInt v = Some 0%Z ->
     draw_count (snd p) = 1%nat /\ alloc_count (snd p) = 1%nat /\
     cachedImg (fst p) <> None) /\
  (parseInt v <> Some 0%Z ->
     draw_count (snd p) = 1%nat /\ alloc_count (snd p) = 0%nat /\
     cachedImg (fst p) = None).
Proof.
  cbv zeta. split; intros Hp.
  - assert (Hu : useImage (fst (direct_draw v st)) = true)
      by (cbn; unfold parseInt_eq0; rewrite Hp; reflexivity).
    destruct (paint_miss tm _ Hu eq_refl) as [Hc He].
    rewrite He, Hc. split; [reflexivity | split; [reflexivity | discriminate]].
  - assert (Hu : useImage (fst (direct_draw v st)) = false).
    { cbn. unfold parseInt_eq0. destruct (parseInt v) as [n |]; [| reflexivity].
      apply Z.eqb_neq. intros ->. apply Hp. reflexivity. }
    destruct (paint_direct tm _ Hu) as [Hc He].
    rewrite He, Hc. split; [reflexivity | split; reflexivity].
Qed.

Lemma direct_draw_then_paint_witness :
  parseInt "0" = Some 0%Z /\
  alloc_count (snd (paint tm_fixed (fst (direct_draw "0" st_painted)))) = 1%nat.
Proof.
  split; [reflexivity |].
  exact (proj1 (proj2 (proj1 (direct_draw_then_paint tm_fixed "0" st_painted) eq_refl))).
Defined.

(** [msg_float(v)] followed by a paint in image mode rebuilds the cache at
    the newly stored scale [Math.max(0.125, Math.min(8, v))]. *)
Theorem msg_float_then_paint (tm : ctx -> string -> jsnum * jsnum)
    (v : jsnum) (st : state) (Hu : useImage st = true) :
  let s' := Math_max n0_125 (Math_min n8 v) in
  let size := c_size (mgraphics st) in
  let p := paint tm (fst (msg_float v st)) in
  draw_count (snd p) = 1%nat /\
  filter is_alloc (snd p) = [Alloc (jmul (fst size) s') (jmul (snd size) s')] /\
  (exists img, cachedImg (fst p) = Some img /\ built_at_scale img = Some s' /\
               im_size img = (jmul (fst size) s', jmul (snd size) s')).
Proof.
  cbv zeta.
  destruct (paint_miss tm (fst (msg_float v st)) Hu eq_refl) as [Hc He].
  rewrite He, Hc. cbn [snd msg_float fst mgraphics imgScale].
  split; [reflexivity | split; [reflexivity |]].
  eexists. split; [reflexivity |].
  split; [apply (offscreen_built_at tm (fst (msg_float v st))) |].
  rewrite drawStuff_ctx. reflexivity.
Qed.

Lemma msg_float_then_paint_witness :
  useImage st_painted = true /\
  filter is_alloc (snd (paint tm_fixed (fst (msg_float (JFin 4) st_painted)))) =
    [Alloc (jmul (JFin 200) (JFin 4)) (jmul (JFin 100) (JFin 4))].
Proof.
  split; [reflexivity |].
  exact (proj1 (proj2 (msg_float_then_paint tm_fixed (JFin 4) st_painted eq_refl))).
Defined.

(** A cache hit does not look at the visible size: a paint at any new size
    draws the image already cached, unchanged, without running [drawStuff]
    or allocating. *)
Theorem cache_hit_ignores_resize (tm : ctx -> string -> jsnum * jsnum)
    (st : state) (img : image) (w h : jsnum)
    (Hu : useImage st = true) (Hc : cachedImg st = Some img) :
  let p := handle tm (EvPaint w h) st in
  cachedImg (fst p) = Some img /\
  draw_count (snd p) = 0%nat /\ alloc_count (snd p) = 0%nat /\
  In (OImageSurfaceDraw img) (c_ops (mgraphics (fst p))).
Proof.
  cbv zeta. cbn [handle].
  destruct (paint_hit tm (with_mgraphics (new_MGraphics w h) st) img Hu Hc) as [Hc' He].
  rewrite Hc', He. split; [reflexivity | split; [reflexivity | split; [reflexivity |]]].
  unfold paint. cbn [with_mgraphics useImage cachedImg idle]. rewrite Hu, Hc.
  destruct (idle st); cbn; tauto.
Qed.

(** After the first paint of the 200x100 box, a paint of a 50x50 box keeps
    the 400x200 image. *)
Lemma cache_hit_ignores_resize_witness :
  useImage st_painted = true /\
  option_map im_size
    (cachedImg (fst (handle tm_fixed (EvPaint (JFin 50) (JFin 50)) st_painted)))
  = Some (jmul (JFin 200) n2, jmul (JFin 100) n2).
Proof.
  split; [reflexivity |].
  destruct (cachedImg st_painted) as [img |] eqn:E; [| vm_compute in E; discriminate E].
  rewrite (proj1 (cache_hit_ignores_resize tm_fixed st_painted img
                   (JFin 50) (JFin 50) eq_refl E)).
  revert E. vm_compute. intros E. injection E as <-. reflexivity.
Defined.

(** The hover indicator: a paint the host requests ends, when [idle] is
    set, with the accent colour and the 5x5 rectangle at
    [(W - 10, (H - 5) / 2)], drawn with the identity transform in both
    modes; when [idle] is clear the accent colour is never selected. *)
Theorem paint_hover_overlay (tm : ctx -> string -> jsnum * jsnum)
    (st : state) (w h : jsnum) :
  let mg := mgraphics (fst (handle tm (EvPaint w h) st)) in
  c_matrix mg = identity_affine /\
  (idle st = true -> exists pre, c_ops mg = pre ++
     [OSetSourceRgba "live_active_automation";
      ORectangle (jsub w (jmul n2 n5)) (jdiv (jsub h n5) n2) n5 n5; OFill]) /\
  (idle st = false -> ~ In (OSetSourceRgba "live_active_automation") (c_ops mg)).
Proof.
  cbv zeta. cbn [handle]. unfold paint.
  cbn [with_mgraphics useImage idle cachedImg mgraphics].
  destruct (useImage st); [destruct (cachedImg st) |]; destruct (idle st); cbn;
    (split; [reflexivity |]);
    (split; intro H; try discriminate H);
    first [ match goal with |- exists pre, ?l = _ =>
              exists (firstn (List.length l - 3) l); reflexivity end
          | intuition discriminate ].
Qed.

Lemma paint_hover_overlay_witness :
  idle (fst (onidle st_painted)) = true /\
  exists pre, c_ops (mgraphics (fst (handle tm_fixed (EvPaint (JFin 200) (JFin 100))
                                     (fst (onidle st_painted))))) = pre ++
     [OSetSourceRgba "live_active_automation";
      ORectangle (jsub (JFin 200) (jmul n2 n5)) (jdiv (jsub (JFin 100) n5) n2) n5 n5; OFill].
Proof.
  split; [reflexivity |].
  apply (proj1 (proj2 (paint_hover_overlay tm_fixed (fst (onidle st_painted))
                         (JFin 200) (JFin 100)))).
  reflexivity.
Defined.
